(** * MSI signer (signers/msi/signer.go): Transform, Sign, Apply, Verify

    A shallow embedding of the five functions of [signer.go] and of the
    flag registration in [init].  The functions are glue around packages
    that are not part of this file ([comdoc], [authenticode], [atomicfile],
    [pkcs], the flag bag); those are taken as a record of collaborators
    ([Collab]), and every function of [signer.go] is written over an
    arbitrary such record, in a state-and-error monad over a world holding
    the files on disk, the staging slot of the atomic rewriter and a log of
    the collaborator calls made so far. *)

From Stdlib Require Import ZArith NArith Lia.
From Stdlib.Strings Require Import Byte.
From stdpp Require Import base option list gmap strings.

Local Open Scope Z_scope.
Local Open Scope string_scope.
Local Open Scope list_scope.

(** ** Go values *)

(** [[]byte]; the nil slice is the empty list. *)
Definition bytes : Type := list byte.

(** Go's [error]; [nil] is the right injection of a result. *)
Definition error : Type := string.

(** [crypto.Hash] is an unsigned integer naming a digest algorithm. *)
Definition Hash : Type := N.

(** An [io.Reader], as the bytes it delivers and the way it ends: [None] is
    a clean [io.EOF], [Some e] a read that fails with [e] once the bytes
    before it have been delivered. *)
Record Reader : Type := mkReader {
  rd_data : bytes;
  rd_term : option error
}.

Inductive ReadResult : Type :=
| RdByte (b : byte) (rest : Reader)
| RdEOF
| RdErr (e : error).

(** One [Read] of a single byte. *)
Definition Read (r : Reader) : ReadResult :=
  match rd_data r with
  | b :: tl => RdByte b (mkReader tl (rd_term r))
  | [] => match rd_term r with
          | None => RdEOF
          | Some e => RdErr e
          end
  end.

(** [n] reads of one byte, then one more: the bytes delivered and the
    result of the last read. *)
Fixpoint Read_n (n : nat) (r : Reader) : bytes * ReadResult :=
  match n with
  | O => ([], Read r)
  | S n' => match Read r with
            | RdByte b rest => let '(bs, res) := Read_n n' rest in (b :: bs, res)
            | res => ([], res)
            end
  end.

(** [ioutil.ReadAll]: reads until the stream ends; [io.EOF] is success. *)
Fixpoint ReadAll_from (d : bytes) (t : option error) (acc : bytes)
  : error + bytes :=
  match d with
  | b :: tl => ReadAll_from tl t (acc ++ [b])
  | [] => match t with
          | None => inr acc
          | Some e => inl e
          end
  end.

Definition ReadAll (r : Reader) : error + bytes :=
  ReadAll_from (rd_data r) (rd_term r) [].

(** [bytes.NewReader(b)]. *)
Definition NewReader (b : bytes) : Reader := mkReader b None.

(** [r, w := io.Pipe()] with a producer that writes [written] to [w] and
    then calls [w.CloseWithError(res)]: the read side delivers [written]
    and then [io.EOF] when [res] is nil, [res] otherwise. *)
Definition io_Pipe (produced : bytes * option error) : Reader :=
  mkReader (fst produced) (snd produced).

(** [signers.SignOpts], the fields used here. *)
Record SignOpts (F : Type) : Type := mkSignOpts {
  opt_Hash : Hash;
  opt_Flags : F
}.
Arguments mkSignOpts {F} _ _.
Arguments opt_Hash {F} _.
Arguments opt_Flags {F} _.

(** [signers.VerifyOpts]. *)
Record VerifyOpts : Type := mkVerifyOpts {
  NoDigests : bool
}.

(** ** Collaborators

    What [signer.go] imports.  Each field is the function of the same name,
    as a pure function of what it is given; the fault fields say when the
    atomic rewriter's two fallible steps fail. *)
Class Collab : Type := {
  Content : Type;               (* the bytes of a file *)
  ComDoc : Type;                (* comdoc.ComDoc *)
  Certificate : Type;           (* certloader.Certificate *)
  PrivSigner : Type;            (* crypto.Signer *)
  Chain : Type;                 (* []*x509.Certificate *)
  SignedData : Type;            (* the PKCS#7 structure before timestamping *)
  TimestampedSignature : Type;  (* pkcs9.TimestampedSignature *)
  MSISignature : Type;          (* what VerifyMSI returns *)
  FlagValues : Type;            (* opts.Flags *)

  GetBool : FlagValues -> string -> bool * option error;
  c_ReadFile : Content -> error + ComDoc;
  c_WriteFile : Content -> error + ComDoc;
  c_Close : ComDoc -> error + Content;
  c_PrehashMSI : ComDoc -> Hash -> error + bytes;
  c_MsiToTar : ComDoc -> bytes * option error;
  c_DigestMsiTar : Reader -> Hash -> bool -> error + bytes;
  c_SignMSIImprint : bytes -> Hash -> PrivSigner -> Chain -> error + SignedData;
  c_InsertMSISignature : ComDoc -> bytes -> bytes -> error + ComDoc;
  c_VerifyMSI : Content -> bool -> error + MSISignature;
  c_Timestamp : SignedData -> Certificate -> SignOpts FlagValues -> bool
                -> error + bytes;
  cert_Signer : Certificate -> PrivSigner;
  cert_Chain : Certificate -> Chain;
  HashFunc : MSISignature -> Hash;
  sig_TimestampedSignature : MSISignature -> TimestampedSignature;
  WriteInPlace_fault : string -> string -> option error;
  Commit_fault : string -> Content -> option error
}.

(** The calls a run makes, in order. *)
Inductive Event : Type :=
| EvReadFile (f : string)
| EvPrehash (h : Hash)
| EvSpawnMsiToTar
| EvDigest (h : Hash) (extended : bool)
| EvSignImprint (h : Hash)
| EvTimestamp
| EvWriteInPlace (src dest : string)
| EvWriteFile
| EvInsert (blob exsig : bytes)
| EvCdfClose
| EvCommit (dest : string)
| EvClose
| EvVerify (f : string) (noDigests : bool).

Definition is_insert (e : Event) : bool :=
  match e with EvInsert _ _ => true | _ => false end.

Definition is_prehash (e : Event) : bool :=
  match e with EvPrehash _ => true | _ => false end.

(** An event that writes: everything the atomic rewriter and the writable
    structure do. *)
Definition is_write (e : Event) : bool :=
  match e with
  | EvWriteInPlace _ _ | EvWriteFile | EvInsert _ _ | EvCdfClose
  | EvCommit _ | EvClose => true
  | _ => false
  end.

(** The digest algorithm a call is made with, for the calls that take
    one. *)
Definition event_hash (e : Event) : option Hash :=
  match e with
  | EvPrehash h | EvDigest h _ | EvSignImprint h => Some h
  | _ => None
  end.

Section Signer.
Context {C : Collab}.

(** ** The world *)
Record World : Type := mkWorld {
  disk : gmap string Content;           (* files, by path *)
  staged : option (string * Content);   (* atomic rewriter: destination, staged bytes *)
  trace : list Event
}.

(** ** State and error monad *)
Definition M (A : Type) : Type := World -> (error + A) * World.

Definition ret {A} (a : A) : M A := fun w => (inr a, w).

Definition throw {A} (e : error) : M A := fun w => (inl e, w).

Definition bind {A B} (m : M A) (k : A -> M B) : M B :=
  fun w => match m w with
           | (inl e, w') => (inl e, w')
           | (inr a, w') => k a w'
           end.

Definition lift {A} (r : error + A) : M A := fun w => (r, w).

Definition get : M World := fun w => (inr w, w).

Definition log (e : Event) : M unit :=
  fun w => (inr tt, mkWorld (disk w) (staged w) (trace w ++ [e])).

Definition set_staged (s : option (string * Content)) : M unit :=
  fun w => (inr tt, mkWorld (disk w) s (trace w)).

Definition set_disk (d : gmap string Content) : M unit :=
  fun w => (inr tt, mkWorld d (staged w) (trace w)).

(** [defer c; body]: [c] runs when [body] returns, whatever it returns, and
    what [c] returns is dropped. *)
Definition defer {A B} (c : M A) (body : M B) : M B :=
  fun w => match body w with
           | (r, w') => (r, snd (c w'))
           end.

(** The world with more calls logged and nothing else changed. *)
Definition add_trace (w : World) (evs : list Event) : World :=
  mkWorld (disk w) (staged w) (trace w ++ evs).

(** The calls a computation makes when it is run from [w]. *)
Definition events_of {A} (m : M A) (w : World) : list Event :=
  drop (length (trace w)) (trace (snd (m w))).

End Signer.

Notation "x <- c ;; k" := (bind c (fun x => k))
  (at level 100, c at next level, right associativity).
Notation "c ;;; k" := (bind c (fun _ => k))
  (at level 100, right associativity).

(** ** The imported packages, as operations on the world *)
Section Packages.
Context {C : Collab}.

(** [comdoc.ReadFile(f)]: parses the file behind the handle [f]. *)
Definition comdoc_ReadFile (f : string) : M ComDoc :=
  log (EvReadFile f) ;;;
  w <- get ;;
  match disk w !! f with
  | None => throw "read: bad file descriptor"
  | Some c => lift (c_ReadFile c)
  end.

(** [authenticode.PrehashMSI(cdf, hash)]. *)
Definition authenticode_PrehashMSI (cdf : ComDoc) (h : Hash) : M bytes :=
  log (EvPrehash h) ;;;
  lift (c_PrehashMSI cdf h).

(** [authenticode.DigestMsiTar(r, hash, extended)]. *)
Definition authenticode_DigestMsiTar (r : Reader) (h : Hash) (extended : bool)
  : M bytes :=
  log (EvDigest h extended) ;;;
  lift (c_DigestMsiTar r h extended).

(** [authenticode.SignMSIImprint(sum, hash, signer, chain)]. *)
Definition authenticode_SignMSIImprint (sum : bytes) (h : Hash)
    (s : PrivSigner) (ch : Chain) : M SignedData :=
  log (EvSignImprint h) ;;;
  lift (c_SignMSIImprint sum h s ch).

(** [pkcs.Timestamp(psd, cert, opts, authenticode)]. *)
Definition pkcs_Timestamp (psd : SignedData) (cert : Certificate)
    (opts : SignOpts FlagValues) (authenticode : bool) : M bytes :=
  log EvTimestamp ;;;
  lift (c_Timestamp psd cert opts authenticode).

(** [authenticode.VerifyMSI(f, skipDigests)]. *)
Definition authenticode_VerifyMSI (f : string) (skipDigests : bool)
  : M MSISignature :=
  log (EvVerify f skipDigests) ;;;
  w <- get ;;
  match disk w !! f with
  | None => throw "read: bad file descriptor"
  | Some c => lift (c_VerifyMSI c skipDigests)
  end.

(** *** The atomic rewriter *)

(** An [atomicfile.AtomicFile]: the handle names its destination and says
    whether it is the source file itself, opened in place, or a staged
    replacement. *)
Record AtomicFile : Type := mkAtomicFile {
  af_dest : string;
  af_inplace : bool
}.

(** Modelled from the spec: [atomicfile.WriteInPlace] is not part of
    [signer.go].  As the comment in [Apply] has it, "copy src to dest if
    needed, otherwise open in-place": when the destination is another path
    it stages a replacement for it that starts as a copy of the source
    file, and nothing is visible under [dest] before [Commit]; when the
    destination is the source file, nothing is staged and the handle
    returned is the source file itself. *)
Definition atomicfile_WriteInPlace (src dest : string) : M AtomicFile :=
  log (EvWriteInPlace src dest) ;;;
  w <- get ;;
  match WriteInPlace_fault src dest with
  | Some e => throw e
  | None =>
      match disk w !! src with
      | None => throw "read: bad file descriptor"
      | Some c =>
          if decide (src = dest) then ret (mkAtomicFile dest true)
          else set_staged (Some (dest, c)) ;;; ret (mkAtomicFile dest false)
      end
  end.

(** The bytes behind [f.GetFile()]: the file itself when opened in place,
    the staged replacement otherwise. *)
Definition AtomicFile_read (f : AtomicFile) (w : World) : option Content :=
  if af_inplace f then disk w !! af_dest f
  else match staged w with
       | None => None
       | Some (_, c) => Some c
       end.

(** Writing through [f.GetFile()]: onto the file itself when opened in
    place, onto the staged replacement otherwise. *)
Definition AtomicFile_write (f : AtomicFile) (c : Content) : M unit :=
  w <- get ;;
  if af_inplace f then set_disk (<[af_dest f := c]> (disk w))
  else match staged w with
       | None => throw "write: file already closed"
       | Some (dest, _) => set_staged (Some (dest, c))
       end.

(** Modelled from the spec: [AtomicFile.Close] without a commit abandons
    the staged file; after a commit, or on a file opened in place, there
    is nothing to abandon.  The release of the handle itself is not
    represented. *)
Definition AtomicFile_Close (f : AtomicFile) : M unit :=
  log EvClose ;;;
  set_staged None.

(** Modelled from the spec: [AtomicFile.Commit] makes the staged bytes the
    file under the destination path, or fails and changes nothing; on a
    file opened in place there is nothing staged to publish, the bytes are
    already under the path. *)
Definition AtomicFile_Commit (f : AtomicFile) : M unit :=
  log (EvCommit (af_dest f)) ;;;
  w <- get ;;
  if af_inplace f then
    match disk w !! af_dest f with
    | None => throw "commit: file already closed"
    | Some c =>
        match Commit_fault (af_dest f) c with
        | Some e => throw e
        | None => ret tt
        end
    end
  else
    match staged w with
    | None => throw "commit: file already closed"
    | Some (dest, c) =>
        match Commit_fault dest c with
        | Some e => throw e
        | None => set_disk (<[dest := c]> (disk w)) ;;; set_staged None
        end
    end.

(** A [comdoc.ComDoc] opened for writing: the structure and the file it
    was opened on. *)
Record WritableDoc : Type := mkWritableDoc {
  wd_cdf : ComDoc;
  wd_file : AtomicFile
}.

(** [comdoc.WriteFile(f.GetFile())]: opens the file behind the handle for
    writing. *)
Definition comdoc_WriteFile (f : AtomicFile) : M WritableDoc :=
  log EvWriteFile ;;;
  w <- get ;;
  match AtomicFile_read f w with
  | None => throw "write: file already closed"
  | Some c =>
      cdf <- lift (c_WriteFile c) ;;
      ret (mkWritableDoc cdf f)
  end.

(** [authenticode.InsertMSISignature(cdf, blob, exsig)]: the structure is
    changed in memory; it reaches the file when it is closed. *)
Definition authenticode_InsertMSISignature (cdf : WritableDoc)
    (blob exsig : bytes) : M WritableDoc :=
  log (EvInsert blob exsig) ;;;
  cdf' <- lift (c_InsertMSISignature (wd_cdf cdf) blob exsig) ;;
  ret (mkWritableDoc cdf' (wd_file cdf)).

(** [cdf.Close()]: writes the structure out to the file it was opened
    on. *)
Definition ComDoc_Close (cdf : WritableDoc) : M unit :=
  log EvCdfClose ;;;
  match c_Close (wd_cdf cdf) with
  | inl e => throw e
  | inr c' => AtomicFile_write (wd_file cdf) c'
  end.

End Packages.

(** ** signer.go *)
Section SignerGo.
Context {C : Collab}.


Record msiTransformer : Type := mkTransformer {
  t_f : string;
  t_cdf : ComDoc;
  t_exsig : bytes
}.

(** The value [transform] and [sign] bind to [noExtended]. *)
Definition noExtended_of (opts : SignOpts FlagValues) : bool :=
  fst (GetBool (opt_Flags opts) "no-extended-sig").


Definition transform (f : string) (opts : SignOpts FlagValues)
  : M msiTransformer :=
  cdf <- comdoc_ReadFile f ;;
  let '(noExtended, _) := GetBool (opt_Flags opts) "no-extended-sig" in
  if negb noExtended then
    exsig <- authenticode_PrehashMSI cdf (opt_Hash opts) ;;
    ret (mkTransformer f cdf exsig)
  else
    ret (mkTransformer f cdf []).

(** The reader, the declared length and a nil error. *)
Definition GetReader (t : msiTransformer) : M (Reader * Z) :=
  log EvSpawnMsiToTar ;;;
  let r := io_Pipe (c_MsiToTar (t_cdf t)) in
  ret (r, -1).

Definition Apply (t : msiTransformer) (dest mimeType : string)
    (result : Reader) : M unit :=
  blob <- lift (ReadAll result) ;;
  f <- atomicfile_WriteInPlace (t_f t) dest ;;
  defer (AtomicFile_Close f) (
    cdf <- comdoc_WriteFile f ;;
    cdf' <- authenticode_InsertMSISignature cdf blob (t_exsig t) ;;
    ComDoc_Close cdf' ;;;
    AtomicFile_Commit f).

Definition sign (r : Reader) (cert : Certificate) (opts : SignOpts FlagValues)
  : M bytes :=
  let '(noExtended, _) := GetBool (opt_Flags opts) "no-extended-sig" in
  sum <- authenticode_DigestMsiTar r (opt_Hash opts) (negb noExtended) ;;
  psd <- authenticode_SignMSIImprint sum (opt_Hash opts)
           (cert_Signer cert) (cert_Chain cert) ;;
  pkcs_Timestamp psd cert opts true.

(** [signers.Signature], the fields [verify] sets. *)
Record Signature : Type := mkSignature {
  sig_Hash : Hash;
  X509Signature : TimestampedSignature
}.

Definition verify (f : string) (opts : VerifyOpts) : M (list Signature) :=
  sig <- authenticode_VerifyMSI f (NoDigests opts) ;;
  ret [mkSignature (HashFunc sig) (sig_TimestampedSignature sig)].

End SignerGo.

(** ** The caller's sequence *)
Section Pipeline.
Context {C : Collab}.

(** Modelled from the spec: the caller that drives a Transformer is not
    part of [signer.go].  It opens the container and builds a Transformer,
    starts the read side, hands the stream to the signing step and passes
    the resulting blob to the write side. *)
Definition SignFile (f dest : string) (cert : Certificate)
    (opts : SignOpts FlagValues) : M unit :=
  t <- transform f opts ;;
  rn <- GetReader t ;;
  blob <- sign (fst rn) cert opts ;;
  Apply t dest "" (NewReader blob).


(** Two write-side calls on one Transformer, the second made whatever the
    first returned: the two results and the world after both. *)
Definition Apply_again (t : msiTransformer) (dest : string)
    (r1 r2 : Reader) (w : World) : (error + unit) * (error + unit) * World :=
  let '(res1, w1) := Apply t dest "" r1 w in
  let '(res2, w2) := Apply t dest "" r2 w1 in
  (res1, res2, w2).


End Pipeline.

(** ** A reference set of collaborators

    A symbolic container and symbolic signatures, enough to run the
    functions above on concrete inputs. *)
Module Ref.

Fixpoint bytes_eqb (a b : bytes) : bool :=
  match a, b with
  | [], [] => true
  | x :: a', y :: b' => Byte.eqb x y && bytes_eqb a' b'
  | _, _ => false
  end.

(** A container: whether its structure parses, its canonical content, and
    the two signature streams (empty when absent). *)
Record Msi : Type := mkMsi {
  m_ok : bool;
  m_body : bytes;
  m_sig : bytes;
  m_exsig : bytes
}.

Record Cert : Type := mkCert {
  cert_id : byte;
  cert_key_ok : bool
}.

Record SD : Type := mkSD {
  sd_sum : bytes;
  sd_hash : Hash;
  sd_cert : byte
}.

Record TS : Type := mkTS {
  ts_sd : SD;
  ts_stamped : bool
}.

Record MsiSig : Type := mkMsiSig {
  ms_HashFunc : Hash;
  ms_TimestampedSignature : TS
}.

(** A digest algorithm is known when its number fits the one byte that
    names it in a signature. *)
Definition hash_tag (h : Hash) : option byte := Byte.of_N h.

(** A stand-in for a digest: the algorithm's tag, then the data. *)
Definition digest (h : Hash) (data : bytes) : error + bytes :=
  match hash_tag h with
  | Some b => inr (b :: data)
  | None => inl "unknown digest algorithm"
  end.

(** The secondary digest, over the same canonical content as the primary
    one. *)
Definition prehash (h : Hash) (body : bytes) : error + bytes :=
  digest h (rev body).

(** The primary digest, with the secondary one mixed in when asked. *)
Definition imprint (h : Hash) (extended : bool) (body : bytes)
  : error + bytes :=
  if extended then
    match prehash h body with
    | inl e => inl e
    | inr ex => digest h (ex ++ body)
    end
  else digest h body.

Definition parse (c : Msi) : error + Msi :=
  if m_ok c then inr c else inl "comdoc: not a compound document".

Definition encode_blob (sd : SD) : error + bytes :=
  match hash_tag (sd_hash sd) with
  | Some b => inr (b :: sd_cert sd :: sd_sum sd)
  | None => inl "unknown digest algorithm"
  end.

Definition decode_blob (blob : bytes) : option SD :=
  match blob with
  | b :: c :: sum => Some (mkSD sum (Byte.to_N b) c)
  | _ => None
  end.

Definition is_nil (b : bytes) : bool :=
  match b with [] => true | _ => false end.

Definition get_bool (fl : gmap string bool) (name : string)
  : bool * option error :=
  match fl !! name with
  | Some b => (b, None)
  | None => (false, Some "flag accessed but not defined")
  end.

Definition digest_tar (r : Reader) (h : Hash) (extended : bool)
  : error + bytes :=
  match ReadAll r with
  | inl e => inl e
  | inr body => imprint h extended body
  end.

Definition sign_imprint (sum : bytes) (h : Hash) (s : Cert) (ch : list byte)
  : error + SD :=
  if cert_key_ok s then
    match hash_tag h with
    | Some _ => inr (mkSD sum h (cert_id s))
    | None => inl "unknown digest algorithm"
    end
  else inl "signer: private key unavailable".

Definition insert_signature (cdf : Msi) (blob exsig : bytes)
  : error + Msi :=
  inr (mkMsi (m_ok cdf) (m_body cdf) blob exsig).

Definition check_digests (c : Msi) (sd : SD) : option error :=
  let extended := negb (is_nil (m_exsig c)) in
  match imprint (sd_hash sd) extended (m_body c) with
  | inl e => Some e
  | inr sum =>
      if negb (bytes_eqb sum (sd_sum sd)) then Some "digest mismatch"
      else if extended then
        match prehash (sd_hash sd) (m_body c) with
        | inl e => Some e
        | inr ex =>
            if bytes_eqb ex (m_exsig c) then None
            else Some "extended digest mismatch"
        end
      else None
  end.

Definition verify_msi (c : Msi) (skipDigests : bool) : error + MsiSig :=
  match parse c with
  | inl e => inl e
  | inr cdf =>
      match decode_blob (m_sig cdf) with
      | None => inl "MSI is not signed"
      | Some sd =>
          let ok := inr (mkMsiSig (sd_hash sd) (mkTS sd true)) in
          if skipDigests then ok
          else match check_digests cdf sd with
               | Some e => inl e
               | None => ok
               end
      end
  end.

Definition no_empty_path (dest : string) : option error :=
  if decide (dest = "") then Some "open : no such file or directory"
  else None.

(** Modelled from the spec: the packages [signer.go] imports are not part
    of it.  The container is opened for reading or writing by parsing it;
    the canonical stream is the container's content; the extended digest
    and the primary digest are computed from that content; the signing
    backend produces a signature over a digest with a certificate; the
    timestamping step wraps it into the blob; embedding stores the blob
    and the extended digest; verification extracts the blob and, unless
    told to skip it, recomputes the digests and compares. *)
Definition mk_collab (producer : Msi → bytes * option error) : Collab := {|
  Content := Msi;
  ComDoc := Msi;
  Certificate := Cert;
  PrivSigner := Cert;
  Chain := list byte;
  SignedData := SD;
  TimestampedSignature := TS;
  MSISignature := MsiSig;
  FlagValues := gmap string bool;
  GetBool := get_bool;
  c_ReadFile := parse;
  c_WriteFile := parse;
  c_Close := fun cdf => inr cdf;
  c_PrehashMSI := fun cdf h => prehash h (m_body cdf);
  c_MsiToTar := producer;
  c_DigestMsiTar := digest_tar;
  c_SignMSIImprint := sign_imprint;
  c_InsertMSISignature := insert_signature;
  c_VerifyMSI := verify_msi;
  c_Timestamp := fun psd cert opts authenticode => encode_blob psd;
  cert_Signer := fun c => c;
  cert_Chain := fun c => [cert_id c];
  HashFunc := ms_HashFunc;
  sig_TimestampedSignature := ms_TimestampedSignature;
  WriteInPlace_fault := fun src dest => no_empty_path dest;
  Commit_fault := fun dest c => None
|}.

(** The canonical stream: the content, delivered whole. *)
Definition canonical (cdf : Msi) : bytes * option error :=
  (m_body cdf, None).

#[export] Instance collab : Collab := mk_collab canonical.

(** The certificate a signature record carries. *)
Definition record_cert (s : Signature) : byte :=
  sd_cert (ts_sd (X509Signature s)).

(** *** Concrete inputs *)

Definition msi0 : Msi := mkMsi true [x01; x02] [] [].

Definition bad_msi : Msi := mkMsi false [x01] [] [].

Definition disk0 : gmap string Msi :=
  <["a.msi" := msi0]> (<["bad.msi" := bad_msi]> ∅).

Definition world0 : World := mkWorld disk0 None [].

Definition cert0 : Cert := mkCert x07 true.

(** SHA-256 is number 5 of [crypto.Hash]. *)
Definition SHA256 : Hash := 5%N.

Definition opts_default : SignOpts (gmap string bool) :=
  mkSignOpts SHA256 (<["no-extended-sig" := false]> ∅).

Definition opts_noext : SignOpts (gmap string bool) :=
  mkSignOpts SHA256 (<["no-extended-sig" := true]> ∅).

(** Options whose flag bag does not define the flag: reading it fails. *)
Definition opts_noflag : SignOpts (gmap string bool) :=
  mkSignOpts SHA256 ∅.

(** The Transformer that [transform] builds for ["a.msi"]. *)
Definition t0 : msiTransformer :=
  mkTransformer "a.msi" msi0 [x05; x02; x01].

Definition blob1 : bytes := [x05; x07; x0a].

Definition blob2 : bytes := [x05; x07; x0b].



(** The world after ["a.msi"] has been signed in place with [cert0]. *)
Definition world1 : World :=
  snd (SignFile "a.msi" "a.msi" cert0 opts_default world0).

(** A blob stream that breaks after its first byte. *)
Definition reader_cut : Reader := mkReader [x05] (Some "unexpected EOF").






End Ref.

(** * Proof steps used more than once *)

(** Membership in an explicit list of calls. *)
Ltac list_in :=
  repeat first [apply list_elem_of_here | apply list_elem_of_further].

Ltac list_absurd Hin :=
  repeat (apply elem_of_cons in Hin as [Hin|Hin]; [discriminate Hin|]);
  by apply elem_of_nil in Hin.

Ltac list_notin :=
  let Hin := fresh "Hin" in intros Hin; try exfalso; list_absurd Hin.

(** Every call in an explicit list that is an embedding call is the one
    expected. *)
Ltac only_insert :=
  let ev := fresh "ev" in
  let Hin := fresh "Hin" in
  let Hi := fresh "Hi" in
  intros ev Hin Hi;
  repeat (apply elem_of_cons in Hin as [->|Hin]; try discriminate Hi;
          try reflexivity);
  by apply elem_of_nil in Hin.

(** * Properties *)

(** ** Readers *)

Lemma ReadAll_from_spec (d : bytes) (t : option error) (acc : bytes) :
  ReadAll_from d t acc =
  match t with
  | None => inr (acc ++ d)
  | Some e => inl e
  end.
Proof.
  revert acc; induction d as [|b d IH]; intros acc; simpl.
  - destruct t; [reflexivity | now rewrite app_nil_r].
  - rewrite IH. destruct t; [reflexivity|]. now rewrite <- app_assoc.
Qed.

Lemma ReadAll_spec (r : Reader) :
  ReadAll r =
  match rd_term r with
  | None => inr (rd_data r)
  | Some e => inl e
  end.
Proof. unfold ReadAll. now rewrite ReadAll_from_spec. Qed.

Lemma ReadAll_NewReader (b : bytes) : ReadAll (NewReader b) = inr b.
Proof. now rewrite ReadAll_spec. Qed.

Lemma Read_n_all (d : bytes) (t : option error) :
  Read_n (length d) (mkReader d t) =
  (d, match t with None => RdEOF | Some e => RdErr e end).
Proof.
  induction d as [|b d IH]; simpl.
  - unfold Read; simpl. now destruct t.
  - unfold Read; simpl. fold (Read (mkReader d t)). now rewrite IH.
Qed.

Section Proofs.
Context {C : Collab}.

Implicit Types (w : World) (t : msiTransformer) (opts : SignOpts FlagValues).

(** ** The world and the log *)

Lemma add_trace_nil w : add_trace w [] = w.
Proof. destruct w; unfold add_trace; simpl. now rewrite app_nil_r. Qed.

Lemma add_trace_app w evs evs' :
  add_trace (add_trace w evs) evs' = add_trace w (evs ++ evs').
Proof. unfold add_trace; simpl. now rewrite app_assoc. Qed.

Lemma events_of_add_trace {A} (m : M A) w r evs :
  m w = (r, add_trace w evs) → events_of m w = evs.
Proof.
  intros H. unfold events_of. rewrite H. simpl.
  now rewrite drop_app_length.
Qed.

Lemma events_of_trace {A} (m : M A) w r w' evs :
  m w = (r, w') → trace w' = trace w ++ evs → events_of m w = evs.
Proof.
  intros H Ht. unfold events_of. rewrite H. simpl. rewrite Ht.
  now rewrite drop_app_length.
Qed.

(** ** transform, step by step *)

Lemma transform_run f opts w :
  transform f opts w =
  match disk w !! f with
  | None => (inl "read: bad file descriptor", add_trace w [EvReadFile f])
  | Some c =>
      match c_ReadFile c with
      | inl e => (inl e, add_trace w [EvReadFile f])
      | inr cdf =>
          if noExtended_of opts
          then (inr (mkTransformer f cdf []), add_trace w [EvReadFile f])
          else match c_PrehashMSI cdf (opt_Hash opts) with
               | inl e =>
                   (inl e, add_trace w [EvReadFile f; EvPrehash (opt_Hash opts)])
               | inr d =>
                   (inr (mkTransformer f cdf d),
                    add_trace w [EvReadFile f; EvPrehash (opt_Hash opts)])
               end
      end
  end.
Proof.
  unfold transform, noExtended_of, comdoc_ReadFile, authenticode_PrehashMSI,
    bind, log, get, lift, throw, ret, add_trace; simpl.
  destruct (disk w !! f) as [c|]; [|reflexivity].
  destruct (c_ReadFile c) as [e|cdf]; [reflexivity|].
  destruct (GetBool (opt_Flags opts) "no-extended-sig") as [[] oe]; simpl;
    [reflexivity|].
  rewrite <- app_assoc; simpl.
  now destruct (c_PrehashMSI cdf (opt_Hash opts)).
Qed.

Lemma GetReader_run t w :
  GetReader t w =
  (inr (io_Pipe (c_MsiToTar (t_cdf t)), -1), add_trace w [EvSpawnMsiToTar]).
Proof. reflexivity. Qed.

(** ** Apply, step by step *)

Lemma Apply_run t dest mimeType result w :
  Apply t dest mimeType result w =
  let src := t_f t in
  match ReadAll result with
  | inl e => (inl e, w)
  | inr blob =>
  match WriteInPlace_fault src dest with
  | Some e => (inl e, add_trace w [EvWriteInPlace src dest])
  | None =>
  match disk w !! src with
  | None =>
      (inl "read: bad file descriptor", add_trace w [EvWriteInPlace src dest])
  | Some c =>
  match c_WriteFile c with
  | inl e =>
      (inl e, mkWorld (disk w) None
                (trace w ++ [EvWriteInPlace src dest; EvWriteFile; EvClose]))
  | inr cdf =>
  match c_InsertMSISignature cdf blob (t_exsig t) with
  | inl e =>
      (inl e, mkWorld (disk w) None
                (trace w ++ [EvWriteInPlace src dest; EvWriteFile;
                             EvInsert blob (t_exsig t); EvClose]))
  | inr cdf' =>
  match c_Close cdf' with
  | inl e =>
      (inl e, mkWorld (disk w) None
                (trace w ++ [EvWriteInPlace src dest; EvWriteFile;
                             EvInsert blob (t_exsig t); EvCdfClose; EvClose]))
  | inr c' =>
  match Commit_fault dest c' with
  | Some e =>
      (inl e, mkWorld (if decide (src = dest)
                       then <[dest := c']> (disk w) else disk w) None
                (trace w ++ [EvWriteInPlace src dest; EvWriteFile;
                             EvInsert blob (t_exsig t); EvCdfClose;
                             EvCommit dest; EvClose]))
  | None =>
      (inr tt, mkWorld (<[dest := c']> (disk w)) None
                 (trace w ++ [EvWriteInPlace src dest; EvWriteFile;
                              EvInsert blob (t_exsig t); EvCdfClose;
                              EvCommit dest; EvClose]))
  end end end end end end end.
Proof.
  unfold Apply, defer, atomicfile_WriteInPlace, comdoc_WriteFile,
    authenticode_InsertMSISignature, ComDoc_Close, AtomicFile_Commit,
    AtomicFile_Close, AtomicFile_read, AtomicFile_write, bind, log, get,
    lift, throw, ret, set_staged, set_disk, add_trace; simpl.
  destruct (ReadAll result) as [e|blob]; [reflexivity|].
  destruct (WriteInPlace_fault (t_f t) dest) as [e|]; [reflexivity|].
  destruct (disk w !! t_f t) as [c|] eqn:Hsrc; [|reflexivity].
  destruct (decide (t_f t = dest)) as [Heq|Hne]; simpl.
  - (* opened in place *)
    rewrite <- Heq, Hsrc; simpl.
    destruct (c_WriteFile c) as [e|cdf]; simpl.
    { now rewrite <- !app_assoc. }
    destruct (c_InsertMSISignature cdf blob (t_exsig t)) as [e|cdf']; simpl.
    { now rewrite <- !app_assoc. }
    destruct (c_Close cdf') as [e|c']; simpl.
    { now rewrite <- !app_assoc. }
    rewrite lookup_insert_eq.
    destruct (Commit_fault (t_f t) c') as [e|]; simpl;
      now rewrite <- !app_assoc.
  - (* a staged copy *)
    destruct (c_WriteFile c) as [e|cdf]; simpl.
    { now rewrite <- !app_assoc. }
    destruct (c_InsertMSISignature cdf blob (t_exsig t)) as [e|cdf']; simpl.
    { now rewrite <- !app_assoc. }
    destruct (c_Close cdf') as [e|c']; simpl.
    { now rewrite <- !app_assoc. }
    destruct (Commit_fault dest c') as [e|]; simpl; now rewrite <- !app_assoc.
Qed.

(** X11: every step of Apply that can fail makes Apply fail with that error. *)
Lemma Apply_step_failures t dest mimeType result w e :
  (ReadAll result = inl e → fst (Apply t dest mimeType result w) = inl e) ∧
  (∀ blob, ReadAll result = inr blob →
     (WriteInPlace_fault (t_f t) dest = Some e →
      fst (Apply t dest mimeType result w) = inl e) ∧
     (∀ c, WriteInPlace_fault (t_f t) dest = None →
        disk w !! t_f t = Some c →
        (c_WriteFile c = inl e →
         fst (Apply t dest mimeType result w) = inl e) ∧
        (∀ cdf, c_WriteFile c = inr cdf →
           (c_InsertMSISignature cdf blob (t_exsig t) = inl e →
            fst (Apply t dest mimeType result w) = inl e) ∧
           (∀ cdf', c_InsertMSISignature cdf blob (t_exsig t) = inr cdf' →
              (c_Close cdf' = inl e →
               fst (Apply t dest mimeType result w) = inl e) ∧
              (∀ c', c_Close cdf' = inr c' → Commit_fault dest c' = Some e →
                 fst (Apply t dest mimeType result w) = inl e))))).
Proof.
  rewrite Apply_run; cbv zeta.
  split; [intros ->; reflexivity|].
  intros blob ->. split; [intros ->; reflexivity|].
  intros c -> ->. split; [intros ->; reflexivity|].
  intros cdf ->. split; [intros ->; reflexivity|].
  intros cdf' ->. split; [intros ->; reflexivity|].
  intros c' -> ->. reflexivity.
Qed.

(** ** sign and verify, step by step *)

Lemma sign_run r cert opts w :
  sign r cert opts w =
  let h := opt_Hash opts in
  let x := negb (noExtended_of opts) in
  match c_DigestMsiTar r h x with
  | inl e => (inl e, add_trace w [EvDigest h x])
  | inr sum =>
      match c_SignMSIImprint sum h (cert_Signer cert) (cert_Chain cert) with
      | inl e => (inl e, add_trace w [EvDigest h x; EvSignImprint h])
      | inr psd =>
          (c_Timestamp psd cert opts true,
           add_trace w [EvDigest h x; EvSignImprint h; EvTimestamp])
      end
  end.
Proof.
  unfold sign, noExtended_of, authenticode_DigestMsiTar,
    authenticode_SignMSIImprint, pkcs_Timestamp, bind, log, lift, add_trace.
  destruct (GetBool (opt_Flags opts) "no-extended-sig") as [b oe]; simpl.
  destruct (c_DigestMsiTar r (opt_Hash opts) (negb b)) as [e|sum];
    [reflexivity|].
  destruct (c_SignMSIImprint sum (opt_Hash opts) (cert_Signer cert)
              (cert_Chain cert)) as [e|psd]; simpl;
    rewrite <- !app_assoc; simpl; [reflexivity|].
  now destruct (c_Timestamp psd cert opts true).
Qed.

Lemma verify_run f (vopts : VerifyOpts) w :
  verify f vopts w =
  match disk w !! f with
  | None =>
      (inl "read: bad file descriptor",
       add_trace w [EvVerify f (NoDigests vopts)])
  | Some c =>
      match c_VerifyMSI c (NoDigests vopts) with
      | inl e => (inl e, add_trace w [EvVerify f (NoDigests vopts)])
      | inr sig =>
          (inr [mkSignature (HashFunc sig) (sig_TimestampedSignature sig)],
           add_trace w [EvVerify f (NoDigests vopts)])
      end
  end.
Proof.
  unfold verify, authenticode_VerifyMSI, bind, log, get, lift, throw, ret,
    add_trace; simpl.
  destruct (disk w !! f) as [c|]; [|reflexivity].
  now destruct (c_VerifyMSI c (NoDigests vopts)).
Qed.

(** The first call of sign is the digest of the stream, extended exactly
    when the flag is off. *)
Lemma sign_digest_event r cert opts w :
  EvDigest (opt_Hash opts) (negb (noExtended_of opts))
    ∈ events_of (sign r cert opts) w.
Proof.
  unfold events_of. rewrite sign_run; cbv zeta.
  destruct (c_DigestMsiTar r (opt_Hash opts) (negb (noExtended_of opts)))
    as [e|sum]; simpl; [rewrite drop_app_length; list_in|].
  destruct (c_SignMSIImprint sum (opt_Hash opts) (cert_Signer cert)
              (cert_Chain cert)) as [e|psd]; simpl;
    rewrite drop_app_length; list_in.
Qed.

(** ** The claims *)

(** C7: the read side never declares a length.  GetReader always succeeds
    and the length it declares is -1, a negative number standing for
    unknown; the error it returns is nil. *)
Theorem GetReader_declares_unknown_length t w :
  ∃ r w', GetReader t w = (inr (r, -1), w') ∧ -1 < 0.
Proof.
  exists (io_Pipe (c_MsiToTar (t_cdf t))), (add_trace w [EvSpawnMsiToTar]).
  split; [apply GetReader_run | lia].
Qed.

(** C9: a verify that succeeds returns one signature record, no more and
    no fewer, and the record carries the hash algorithm and the timestamped
    signature that VerifyMSI extracted from the file. *)
Theorem verify_returns_one_record f (vopts : VerifyOpts) w l w' :
  verify f vopts w = (inr l, w') →
  ∃ c sig,
    disk w !! f = Some c ∧
    c_VerifyMSI c (NoDigests vopts) = inr sig ∧
    l = [mkSignature (HashFunc sig) (sig_TimestampedSignature sig)] ∧
    length l = 1%nat.
Proof.
  rewrite verify_run. intros H.
  destruct (disk w !! f) as [c|]; [|discriminate].
  destruct (c_VerifyMSI c (NoDigests vopts)) as [e|sig] eqn:Hv;
    [discriminate|].
  inversion H; subst. exists c, sig. auto.
Qed.

(** C8: when the structure of the container behind the handle does not
    parse, transform returns the parse error and no Transformer; when the
    precomputation of the extended digest fails, transform returns that
    error; and whatever transform returns, the files on disk and the
    staging slot are as before and no writing call was made. *)
Theorem transform_failure_leaves_container f opts w c :
  disk w !! f = Some c →
  (∀ e, c_ReadFile c = inl e →
     transform f opts w = (inl e, add_trace w [EvReadFile f])) ∧
  (∀ cdf e, c_ReadFile c = inr cdf → noExtended_of opts = false →
     c_PrehashMSI cdf (opt_Hash opts) = inl e →
     transform f opts w =
       (inl e, add_trace w [EvReadFile f; EvPrehash (opt_Hash opts)])) ∧
  disk (snd (transform f opts w)) = disk w ∧
  staged (snd (transform f opts w)) = staged w ∧
  forallb (fun ev => negb (is_write ev)) (events_of (transform f opts) w)
    = true.
Proof.
  intros Hf. split; [|split].
  - intros e He. now rewrite transform_run, Hf, He.
  - intros cdf e Hr Hn Hp. now rewrite transform_run, Hf, Hr, Hn, Hp.
  - unfold events_of. rewrite transform_run, Hf.
    destruct (c_ReadFile c) as [e|cdf]; simpl;
      [now rewrite drop_app_length|].
    destruct (noExtended_of opts); simpl; [now rewrite drop_app_length|].
    destruct (c_PrehashMSI cdf (opt_Hash opts)); simpl;
      now rewrite drop_app_length.
Qed.


Lemma insert_in_calls (blob ex blob0 ex0 : bytes) (l : list Event) :
  (∀ ev, ev ∈ l → is_insert ev = true → ev = EvInsert blob0 ex0) →
  EvInsert blob ex ∈ l → ex = ex0 ∧ blob0 = blob.
Proof.
  intros Hall Hin. specialize (Hall _ Hin eq_refl).
  inversion Hall; subst. auto.
Qed.

(** What Apply embeds: every embedding call it makes carries the blob read
    from [result] and the Transformer's extended digest. *)
Lemma Apply_insert_events t dest mimeType result w blob ex :
  EvInsert blob ex ∈ events_of (Apply t dest mimeType result) w →
  ex = t_exsig t ∧ ReadAll result = inr blob.
Proof.
  unfold events_of. rewrite Apply_run; cbv zeta.
  destruct (ReadAll result) as [e|blob0].
  { rewrite drop_all. list_notin. }
  destruct (WriteInPlace_fault (t_f t) dest) as [e|];
    [simpl; rewrite drop_app_length; list_notin|].
  destruct (disk w !! t_f t) as [c|];
    [|simpl; rewrite drop_app_length; list_notin].
  destruct (c_WriteFile c) as [e|cdf]; simpl;
    [rewrite drop_app_length; list_notin|].
  assert (Hgoal : ∀ l : list Event,
            (∀ ev, ev ∈ l → is_insert ev = true →
               ev = EvInsert blob0 (t_exsig t)) →
            EvInsert blob ex ∈ l →
            ex = t_exsig t ∧ (inr blob0 : error + bytes) = inr blob).
  { intros l Hall Hin.
    destruct (insert_in_calls _ _ _ _ _ Hall Hin) as [-> ->]. auto. }
  destruct (c_InsertMSISignature cdf blob0 (t_exsig t)) as [e|cdf']; simpl.
  { rewrite drop_app_length. apply Hgoal. only_insert. }
  destruct (c_Close cdf') as [e|c']; simpl.
  { rewrite drop_app_length. apply Hgoal. only_insert. }
  destruct (Commit_fault dest c') as [e|]; simpl;
    rewrite drop_app_length; apply Hgoal; only_insert.
Qed.

(** C2, as the code has it: Apply has no once-only guard.  An Apply that
    cannot read its blob returns that error before anything else is done:
    no call is made and the world is as it was.  A second Apply on the
    same Transformer is then not rejected: it runs as a first one would,
    and when its own steps succeed it returns nil, having embedded its
    blob with the Transformer's extended digest into the destination. *)
Theorem Apply_after_failed_read t dest mimeType r1 r2 w e blob c cdf cdf' c' :
  ReadAll r1 = inl e →
  ReadAll r2 = inr blob →
  WriteInPlace_fault (t_f t) dest = None →
  disk w !! t_f t = Some c →
  c_WriteFile c = inr cdf →
  c_InsertMSISignature cdf blob (t_exsig t) = inr cdf' →
  c_Close cdf' = inr c' →
  Commit_fault dest c' = None →
  Apply t dest mimeType r1 w = (inl e, w) ∧
  ∃ w2,
    Apply_again t dest r1 r2 w = (inl e, inr tt, w2) ∧
    disk w2 = <[dest := c']> (disk w) ∧
    List.filter is_insert (trace w2) =
      List.filter is_insert (trace w) ++ [EvInsert blob (t_exsig t)].
Proof.
  intros H1 H2 Hf Hd Hw Hi Hc Hm.
  assert (Hfirst : ∀ m, Apply t dest m r1 w = (inl e, w)).
  { intros m. rewrite Apply_run; cbv zeta. now rewrite H1. }
  split; [apply Hfirst|].
  unfold Apply_again. rewrite Hfirst.
  rewrite Apply_run; cbv zeta. rewrite H2, Hf, Hd, Hw, Hi, Hc, Hm.
  eexists. split; [reflexivity|]. split; [reflexivity|].
  simpl. rewrite List.filter_app. reflexivity.
Qed.

(** ** transform, in the two positions of the flag *)

Lemma transform_success f opts w t w1 :
  transform f opts w = (inr t, w1) →
  ∃ c, disk w !! f = Some c ∧ c_ReadFile c = inr (t_cdf t) ∧ t_f t = f ∧
    if noExtended_of opts
    then t_exsig t = [] ∧ w1 = add_trace w [EvReadFile f]
    else c_PrehashMSI (t_cdf t) (opt_Hash opts) = inr (t_exsig t) ∧
         w1 = add_trace w [EvReadFile f; EvPrehash (opt_Hash opts)].
Proof.
  rewrite transform_run. intros H.
  destruct (disk w !! f) as [c|]; [|discriminate].
  destruct (c_ReadFile c) as [e|cdf] eqn:Hr; [discriminate|].
  exists c. destruct (noExtended_of opts).
  - inversion H; subst; simpl. auto.
  - destruct (c_PrehashMSI cdf (opt_Hash opts)) as [e|d] eqn:Hp;
      [discriminate|].
    inversion H; subst; simpl. auto.
Qed.

(** C4: with the flag off, the extended digest a Transformer holds is the
    one PrehashMSI returned, inside transform, for the structure parsed
    from the file as it was when transform ran.  The producer is started
    by GetReader only, after the prehash call in the order of calls; and
    at whatever later state of the world the write side runs, the extended
    digest it embeds is the one the Transformer holds. *)
Theorem extended_digest_is_snapshot f opts w t w1 :
  noExtended_of opts = false →
  transform f opts w = (inr t, w1) →
  (∃ c, disk w !! f = Some c ∧ c_ReadFile c = inr (t_cdf t) ∧
        c_PrehashMSI (t_cdf t) (opt_Hash opts) = inr (t_exsig t)) ∧
  events_of (transform f opts) w = [EvReadFile f; EvPrehash (opt_Hash opts)] ∧
  events_of (tr <- transform f opts ;; GetReader tr) w =
    [EvReadFile f; EvPrehash (opt_Hash opts); EvSpawnMsiToTar] ∧
  (∀ w2, ∃ r, GetReader t w2 = (inr (r, -1), add_trace w2 [EvSpawnMsiToTar])) ∧
  (∀ w2 dest mimeType result blob ex,
     EvInsert blob ex ∈ events_of (Apply t dest mimeType result) w2 →
     ex = t_exsig t).
Proof.
  intros Hn H.
  destruct (transform_success _ _ _ _ _ H) as (c & Hf & Hr & _ & Hx).
  rewrite Hn in Hx. destruct Hx as [Hp ->].
  split_and!.
  - eauto.
  - eapply events_of_add_trace; eauto.
  - eapply events_of_add_trace with (r := inr (io_Pipe (c_MsiToTar (t_cdf t)), -1)).
    unfold bind. rewrite H, GetReader_run, add_trace_app. reflexivity.
  - intros w2. eexists. apply GetReader_run.
  - intros w2 dest mimeType result blob ex Hin.
    now apply Apply_insert_events in Hin.
Qed.



(** C10: when reading the flag returns an error together with false, the
    error is dropped: transform runs as with the flag off, parsing the
    file and computing the extended digest, and sign digests the stream
    with the extended digest mixed in. *)
Theorem flag_error_is_ignored f r cert opts w e :
  GetBool (opt_Flags opts) "no-extended-sig" = (false, Some e) →
  transform f opts w =
    (cdf <- comdoc_ReadFile f ;;
     exsig <- authenticode_PrehashMSI cdf (opt_Hash opts) ;;
     ret (mkTransformer f cdf exsig)) w ∧
  sign r cert opts w =
    (sum <- authenticode_DigestMsiTar r (opt_Hash opts) true ;;
     psd <- authenticode_SignMSIImprint sum (opt_Hash opts)
              (cert_Signer cert) (cert_Chain cert) ;;
     pkcs_Timestamp psd cert opts true) w.
Proof.
  intros Hg. unfold transform, sign. rewrite Hg. split; reflexivity.
Qed.

(** Only the first component of what GetBool returns reaches transform. *)
Lemma transform_ignores_flag_error f opts opts' w :
  opt_Hash opts = opt_Hash opts' →
  noExtended_of opts = noExtended_of opts' →
  transform f opts w = transform f opts' w.
Proof. intros Hh Hn. now rewrite !transform_run, Hh, Hn. Qed.

(** ** The read side *)

Lemma GetReader_stream t w written res :
  c_MsiToTar (t_cdf t) = (written, res) →
  GetReader t w = (inr (mkReader written res, -1), add_trace w [EvSpawnMsiToTar]).
Proof. intros H. rewrite GetReader_run, H. reflexivity. Qed.


End Proofs.

(** ** The reference collaborators *)

Lemma bytes_eqb_refl (a : bytes) : Ref.bytes_eqb a a = true.
Proof.
  induction a as [|x a IH]; simpl; [reflexivity|].
  rewrite IH, andb_true_r. now apply Byte.byte_dec_lb.
Qed.

Lemma hash_tag_known (h : Hash) :
  (h < 256)%N → ∃ b, Ref.hash_tag h = Some b ∧ Byte.to_N b = h.
Proof.
  intros Hh. unfold Ref.hash_tag.
  destruct (Byte.of_N h) as [b|] eqn:Hb.
  - exists b. split; [reflexivity | now apply Byte.to_of_N].
  - apply Byte.of_N_None_iff in Hb. lia.
Qed.

Section RefRoundTrip.
Import Ref.

Implicit Types (a : @Content collab) (flags : @FlagValues collab)
  (w : @World collab).

Lemma imprint_known (h : Hash) (b : byte) (x : bool) (body : bytes) :
  hash_tag h = Some b →
  imprint h x body =
    inr (if x then b :: (b :: rev body) ++ body else b :: body) ∧
  prehash h body = inr (b :: rev body).
Proof.
  intros Hb. unfold imprint, prehash, digest. rewrite Hb.
  now destruct x.
Qed.

Lemma digest_tar_canonical (cdf : Msi) (h : Hash) (x : bool) :
  digest_tar (io_Pipe (canonical cdf)) h x = imprint h x (m_body cdf).
Proof. unfold digest_tar, io_Pipe, canonical. now rewrite ReadAll_spec. Qed.

(** The caller's sequence on a well-formed container, a usable certificate
    and a known digest algorithm: what ends up under [dest]. *)
Lemma SignFile_ref_run a (cert : Cert) (h : Hash) flags (f dest : string) w
    (b : byte) :
  disk w !! f = Some a → m_ok a = true → cert_key_ok cert = true →
  hash_tag h = Some b → dest ≠ "" →
  let opts : SignOpts (@FlagValues collab) := mkSignOpts h flags in
  let x := negb (noExtended_of opts) in
  ∃ sum,
    imprint h x (m_body a) = inr sum ∧
    ∃ evs, SignFile f dest cert opts w =
      (inr tt,
       mkWorld (<[dest := mkMsi true (m_body a) (b :: cert_id cert :: sum)
                    (if x then b :: rev (m_body a) else [])]> (disk w))
               None (trace w ++ evs)).
Proof.
  intros Hf Hok Hkey Hb Hdest opts x.
  destruct (imprint_known h b x (m_body a) Hb) as [Hi Hp].
  eexists. split; [exact Hi|].
  unfold SignFile, bind.
  rewrite transform_run, Hf. simpl c_ReadFile. unfold parse at 1. rewrite Hok.
  subst x. destruct (noExtended_of opts) eqn:Hn; simpl negb in *; eexists.
  - rewrite GetReader_run. simpl fst. rewrite sign_run; cbv zeta. rewrite Hn.
    simpl c_DigestMsiTar. simpl c_MsiToTar. simpl t_cdf. simpl opt_Hash.
    rewrite digest_tar_canonical, Hi. simpl. unfold sign_imprint. rewrite Hkey, Hb.
    unfold encode_blob; simpl. rewrite Hb.
    rewrite Apply_run; cbv zeta. rewrite ReadAll_NewReader. simpl.
    unfold no_empty_path. destruct (decide (dest = "")) as [?|_]; [done|].
    simpl in Hf |- *. rewrite Hf. unfold parse. rewrite Hok. simpl.
    rewrite Hok, <- !app_assoc. reflexivity.
  - simpl c_PrehashMSI. subst opts. simpl opt_Hash. rewrite Hp.
    rewrite GetReader_run. simpl fst. rewrite sign_run; cbv zeta. rewrite Hn.
    simpl c_DigestMsiTar. simpl c_MsiToTar. simpl t_cdf. simpl opt_Hash.
    rewrite digest_tar_canonical, Hi. simpl. unfold sign_imprint. rewrite Hkey, Hb.
    unfold encode_blob; simpl. rewrite Hb.
    rewrite Apply_run; cbv zeta. rewrite ReadAll_NewReader. simpl.
    unfold no_empty_path. destruct (decide (dest = "")) as [?|_]; [done|].
    simpl in Hf |- *. rewrite Hf. unfold parse. rewrite Hok. simpl.
    rewrite Hok, <- !app_assoc. reflexivity.
Qed.

(** Verification of what the sequence wrote. *)
Lemma verify_msi_signed (h : Hash) (b cid : byte) (x nd : bool)
    (body sum : bytes) :
  hash_tag h = Some b → Byte.to_N b = h →
  imprint h x body = inr sum →
  verify_msi (mkMsi true body (b :: cid :: sum)
                (if x then b :: rev body else [])) nd =
    inr (mkMsiSig h (mkTS (mkSD sum h cid) true)).
Proof.
  intros Hb Hbn Hi.
  destruct (imprint_known h b x body Hb) as [_ Hp].
  unfold verify_msi, parse. cbn -[imprint prehash bytes_eqb check_digests].
  rewrite Hbn. destruct nd; [reflexivity|].
  unfold check_digests. cbn -[imprint prehash bytes_eqb].
  destruct x; cbn -[imprint prehash bytes_eqb];
    rewrite Hi, bytes_eqb_refl; cbn -[imprint prehash bytes_eqb];
    [|reflexivity].
  now rewrite Hp, bytes_eqb_refl.
Qed.

(** C1: for a container whose structure parses, a certificate whose key
    is usable and a known digest algorithm, the caller's sequence
    (transform, read side, sign, write side) succeeds, and verifying the
    file it wrote succeeds with one record; the record's certificate is
    the signing certificate and its digest algorithm is the one of the
    sign options. *)
Theorem sign_then_verify_roundtrip a (cert : Cert) (h : Hash) flags
    (f dest : string) (nd : bool) w :
  disk w !! f = Some a → m_ok a = true → cert_key_ok cert = true →
  (h < 256)%N → dest ≠ "" →
  ∃ w' s w'',
    SignFile f dest cert (mkSignOpts h flags) w = (inr tt, w') ∧
    verify dest (mkVerifyOpts nd) w' = (inr [s], w'') ∧
    record_cert s = cert_id cert ∧ sig_Hash s = h.
Proof.
  intros Hf Hok Hkey Hh Hdest.
  destruct (hash_tag_known h Hh) as (b & Hb & Hbn).
  destruct (SignFile_ref_run a cert h flags f dest w b Hf Hok Hkey Hb Hdest)
    as (sum & Hi & evs & Hrun).
  eexists _, _, _. split; [exact Hrun|].
  rewrite verify_run. cbn [disk]. rewrite lookup_insert_eq.
  cbn [NoDigests c_VerifyMSI collab mk_collab].
  rewrite (verify_msi_signed h b (cert_id cert) _ nd _ sum Hb Hbn Hi).
  split; [reflexivity|]. split; reflexivity.
Qed.

End RefRoundTrip.

(** ** The claims on concrete inputs *)
Section Concrete.
Import Ref.

Lemma pair_of_fst {A B} (p : A * B) (a : A) : fst p = a → p = (a, snd p).
Proof. intros <-. now destruct p. Qed.


Lemma sign_then_verify_roundtrip_witness :
  disk world0 !! "a.msi" = Some msi0 ∧ m_ok msi0 = true ∧
  cert_key_ok cert0 = true ∧ (SHA256 < 256)%N ∧ "a.msi" ≠ "" ∧
  ∃ w' s w'',
    SignFile "a.msi" "a.msi" cert0 opts_default world0 = (inr tt, w') ∧
    verify "a.msi" (mkVerifyOpts false) w' = (inr [s], w'') ∧
    record_cert s = cert_id cert0 ∧ sig_Hash s = SHA256.
Proof.
  assert (H1 : disk world0 !! "a.msi" = Some msi0) by reflexivity.
  assert (H2 : m_ok msi0 = true) by reflexivity.
  assert (H3 : cert_key_ok cert0 = true) by reflexivity.
  assert (H4 : (SHA256 < 256)%N) by reflexivity.
  assert (H5 : "a.msi" ≠ "") by discriminate.
  split_and!; try assumption.
  exact (sign_then_verify_roundtrip msi0 cert0 SHA256
           (opt_Flags opts_default) "a.msi" "a.msi" false world0
           H1 H2 H3 H4 H5).
Defined.

(** C2, as stated, fails: after an Apply that completed with an error (its
    blob stream broke), a second Apply on the same Transformer returns nil
    and embeds its blob. *)
Lemma Apply_again_after_error_succeeds :
  ∃ w2,
    Apply_again t0 "a.msi" reader_cut (NewReader blob1) world0 =
      (inl "unexpected EOF", inr tt, w2) ∧
    disk w2 !! "a.msi" = Some (mkMsi true [x01; x02] blob1 [x05; x02; x01]).
Proof.
  exists (snd (Apply_again t0 "a.msi" reader_cut (NewReader blob1) world0)).
  split.
  - apply pair_of_fst. vm_compute. reflexivity.
  - vm_compute. reflexivity.
Qed.

Lemma Apply_after_failed_read_witness :
  ReadAll reader_cut = inl "unexpected EOF" ∧
  ReadAll (NewReader blob1) = inr blob1 ∧
  WriteInPlace_fault (t_f t0) "b.msi" = None ∧
  disk world0 !! t_f t0 = Some msi0 ∧
  c_WriteFile msi0 = inr msi0 ∧
  c_InsertMSISignature msi0 blob1 (t_exsig t0) =
    inr (mkMsi true [x01; x02] blob1 [x05; x02; x01]) ∧
  c_Close (mkMsi true [x01; x02] blob1 [x05; x02; x01]) =
    inr (mkMsi true [x01; x02] blob1 [x05; x02; x01]) ∧
  Commit_fault "b.msi" (mkMsi true [x01; x02] blob1 [x05; x02; x01]) = None ∧
  Apply t0 "b.msi" "" reader_cut world0 = (inl "unexpected EOF", world0) ∧
  ∃ w2,
    Apply_again t0 "b.msi" reader_cut (NewReader blob1) world0 =
      (inl "unexpected EOF", inr tt, w2) ∧
    disk w2 =
      <["b.msi" := mkMsi true [x01; x02] blob1 [x05; x02; x01]]>
        (disk world0) ∧
    List.filter is_insert (trace w2) =
      List.filter is_insert (trace world0)
        ++ [EvInsert blob1 (t_exsig t0)].
Proof.
  assert (H1 : ReadAll reader_cut = inl "unexpected EOF") by reflexivity.
  assert (H2 : ReadAll (NewReader blob1) = inr blob1) by reflexivity.
  assert (H3 : WriteInPlace_fault (t_f t0) "b.msi" = None) by reflexivity.
  assert (H4 : disk world0 !! t_f t0 = Some msi0) by reflexivity.
  assert (H5 : c_WriteFile msi0 = inr msi0) by reflexivity.
  assert (H6 : c_InsertMSISignature msi0 blob1 (t_exsig t0) =
               inr (mkMsi true [x01; x02] blob1 [x05; x02; x01]))
    by reflexivity.
  assert (H7 : c_Close (mkMsi true [x01; x02] blob1 [x05; x02; x01]) =
               inr (mkMsi true [x01; x02] blob1 [x05; x02; x01]))
    by reflexivity.
  assert (H8 : Commit_fault "b.msi"
                 (mkMsi true [x01; x02] blob1 [x05; x02; x01]) = None)
    by reflexivity.
  split_and!; try assumption;
    apply (Apply_after_failed_read t0 "b.msi" "" reader_cut
             (NewReader blob1) world0 _ _ _ _ _ _ H1 H2 H3 H4 H5 H6 H7 H8).
Defined.



Lemma extended_digest_is_snapshot_witness :
  noExtended_of opts_default = false ∧
  transform "a.msi" opts_default world0 =
    (inr t0, add_trace world0 [EvReadFile "a.msi"; EvPrehash SHA256]) ∧
  events_of (tr <- transform "a.msi" opts_default ;; GetReader tr) world0 =
    [EvReadFile "a.msi"; EvPrehash SHA256; EvSpawnMsiToTar].
Proof.
  assert (H1 : noExtended_of opts_default = false) by reflexivity.
  assert (H2 : transform "a.msi" opts_default world0 =
            (inr t0, add_trace world0 [EvReadFile "a.msi"; EvPrehash SHA256]))
    by reflexivity.
  split; [exact H1|]. split; [exact H2|].
  exact (proj1 (proj2 (proj2
           (extended_digest_is_snapshot "a.msi" opts_default world0 t0 _
              H1 H2)))).
Defined.



Lemma transform_failure_leaves_container_witness :
  disk world0 !! "bad.msi" = Some bad_msi ∧
  transform "bad.msi" opts_default world0 =
    (inl "comdoc: not a compound document",
     add_trace world0 [EvReadFile "bad.msi"]) ∧
  disk (snd (transform "bad.msi" opts_default world0)) = disk world0.
Proof.
  assert (H : disk world0 !! "bad.msi" = Some bad_msi) by reflexivity.
  split; [exact H|].
  pose proof (transform_failure_leaves_container "bad.msi" opts_default
                world0 bad_msi H) as (Hparse & _ & Hd & _).
  split; [|exact Hd].
  exact (Hparse "comdoc: not a compound document" eq_refl).
Defined.

Lemma verify_returns_one_record_witness :
  ∃ l w',
    verify "a.msi" (mkVerifyOpts false) world1 = (inr l, w') ∧
    length l = 1%nat.
Proof.
  assert (H : verify "a.msi" (mkVerifyOpts false) world1 =
            (inr [mkSignature SHA256
                    (mkTS (mkSD [x05; x05; x02; x01; x01; x02] SHA256 x07)
                       true)],
             snd (verify "a.msi" (mkVerifyOpts false) world1)))
    by (apply pair_of_fst; vm_compute; reflexivity).
  eexists _, _. split; [exact H|].
  destruct (verify_returns_one_record "a.msi" (mkVerifyOpts false) world1 _ _ H)
    as (c & sig & _ & _ & _ & Hl).
  exact Hl.
Defined.

Lemma flag_error_is_ignored_witness :
  GetBool (opt_Flags opts_noflag) "no-extended-sig" =
    (false, Some "flag accessed but not defined") ∧
  transform "a.msi" opts_noflag world0 =
    (cdf <- comdoc_ReadFile "a.msi" ;;
     exsig <- authenticode_PrehashMSI cdf (opt_Hash opts_noflag) ;;
     ret (mkTransformer "a.msi" cdf exsig)) world0.
Proof.
  assert (H : GetBool (opt_Flags opts_noflag) "no-extended-sig" =
            (false, Some "flag accessed but not defined")) by reflexivity.
  split; [exact H|].
  exact (proj1 (flag_error_is_ignored "a.msi" (NewReader []) cert0
                  opts_noflag world0 _ H)).
Defined.

End Concrete.

(** * More on the five functions *)
Section More.
Context {C : Collab}.

Implicit Types (w : World) (t : msiTransformer) (opts : SignOpts FlagValues).

(** ** transform *)

(** X1: transform succeeds exactly when the file behind the handle parses and,
    with the flag off, the prehash succeeds; the Transformer then holds the
    handle it was given, the parsed structure, and the prehash result (or
    nothing, with the flag on). *)
Theorem transform_succeeds_iff f opts w t :
  fst (transform f opts w) = inr t ↔
  ∃ c, disk w !! f = Some c ∧ c_ReadFile c = inr (t_cdf t) ∧ t_f t = f ∧
    if noExtended_of opts then t_exsig t = []
    else c_PrehashMSI (t_cdf t) (opt_Hash opts) = inr (t_exsig t).
Proof.
  split.
  - destruct (transform f opts w) as [r w1] eqn:H. simpl. intros ->.
    destruct (transform_success _ _ _ _ _ H) as (c & Hf & Hr & Hn & Hx).
    exists c. split_and!; auto.
    destruct (noExtended_of opts); tauto.
  - intros (c & Hf & Hr & Hn & Hx). rewrite transform_run, Hf, Hr.
    destruct t as [tf tc tx]; simpl in *. subst tf.
    destruct (noExtended_of opts).
    + now subst tx.
    + now rewrite Hx.
Qed.

(** ** The read side *)

(** X2: when the producer returns nil, the reader delivers exactly the bytes
    it wrote and then ends cleanly. *)
Theorem GetReader_clean_stream t w written :
  c_MsiToTar (t_cdf t) = (written, None) →
  ∃ r, GetReader t w = (inr (r, -1), add_trace w [EvSpawnMsiToTar]) ∧
       ReadAll r = inr written ∧
       Read_n (length written) r = (written, RdEOF).
Proof.
  intros Hp. exists (mkReader written None). split_and!.
  - now apply GetReader_stream.
  - now rewrite ReadAll_spec.
  - apply Read_n_all.
Qed.

(** ** sign *)

Lemma sign_events r cert opts w ev :
  ev ∈ events_of (sign r cert opts) w →
  (ev = EvDigest (opt_Hash opts) (negb (noExtended_of opts))) ∨
  (ev = EvSignImprint (opt_Hash opts) ∧
   ∃ sum, c_DigestMsiTar r (opt_Hash opts) (negb (noExtended_of opts))
          = inr sum) ∨
  (ev = EvTimestamp ∧
   ∃ sum psd,
     c_DigestMsiTar r (opt_Hash opts) (negb (noExtended_of opts)) = inr sum ∧
     c_SignMSIImprint sum (opt_Hash opts) (cert_Signer cert) (cert_Chain cert)
       = inr psd).
Proof.
  unfold events_of. rewrite sign_run; cbv zeta.
  destruct (c_DigestMsiTar r (opt_Hash opts) (negb (noExtended_of opts)))
    as [e|sum]; simpl.
  { rewrite drop_app_length. intros Hin.
    apply elem_of_cons in Hin as [->|Hin]; [auto|].
    by apply elem_of_nil in Hin. }
  destruct (c_SignMSIImprint sum (opt_Hash opts) (cert_Signer cert)
              (cert_Chain cert)) as [e|psd] eqn:Hs; simpl;
    rewrite drop_app_length; intros Hin.
  - apply elem_of_cons in Hin as [->|Hin]; [auto|].
    apply elem_of_cons in Hin as [->|Hin]; [eauto 10|].
    by apply elem_of_nil in Hin.
  - apply elem_of_cons in Hin as [->|Hin]; [auto|].
    apply elem_of_cons in Hin as [->|Hin]; [eauto 10|].
    apply elem_of_cons in Hin as [->|Hin]; [right; right; eauto|].
    by apply elem_of_nil in Hin.
Qed.

(** X3: sign returns a blob exactly when the digest of the stream, the
    signature over it and the timestamping all succeed; the blob is the
    timestamped signature over that digest, made with the signer and chain
    of the certificate that is also handed to the timestamping step. *)
Theorem sign_succeeds_iff r cert opts w blob :
  fst (sign r cert opts w) = inr blob ↔
  ∃ sum psd,
    c_DigestMsiTar r (opt_Hash opts) (negb (noExtended_of opts)) = inr sum ∧
    c_SignMSIImprint sum (opt_Hash opts) (cert_Signer cert) (cert_Chain cert)
      = inr psd ∧
    c_Timestamp psd cert opts true = inr blob.
Proof.
  rewrite sign_run; cbv zeta. split.
  - destruct (c_DigestMsiTar r (opt_Hash opts) (negb (noExtended_of opts)))
      as [e|sum]; [discriminate|].
    destruct (c_SignMSIImprint sum (opt_Hash opts) (cert_Signer cert)
                (cert_Chain cert)) as [e|psd] eqn:Hs; [discriminate|].
    simpl. intros Ht. exists sum, psd. auto.
  - intros (sum & psd & -> & -> & Ht). exact Ht.
Qed.

(** X4: sign never signs what it could not digest and never asks for a
    timestamp on a signature it did not get; and whatever it returns, it
    has written nothing: disk and staging slot are as before. *)
Theorem sign_calls_backend_only_after_digest r cert opts w :
  (EvSignImprint (opt_Hash opts) ∈ events_of (sign r cert opts) w →
   ∃ sum, c_DigestMsiTar r (opt_Hash opts) (negb (noExtended_of opts))
          = inr sum) ∧
  (EvTimestamp ∈ events_of (sign r cert opts) w →
   ∃ sum psd,
     c_DigestMsiTar r (opt_Hash opts) (negb (noExtended_of opts)) = inr sum ∧
     c_SignMSIImprint sum (opt_Hash opts) (cert_Signer cert) (cert_Chain cert)
       = inr psd) ∧
  disk (snd (sign r cert opts w)) = disk w ∧
  staged (snd (sign r cert opts w)) = staged w ∧
  ∀ ev, ev ∈ events_of (sign r cert opts) w → is_write ev = false.
Proof.
  split_and!.
  - intros Hin. apply sign_events in Hin as [Heq|[[_ H]|[Heq _]]];
      [discriminate Heq | exact H | discriminate Heq].
  - intros Hin. apply sign_events in Hin as [Heq|[[Heq _]|[_ H]]];
      [discriminate Heq | discriminate Heq | exact H].
  - rewrite sign_run; cbv zeta.
    destruct (c_DigestMsiTar _ _ _); [reflexivity|].
    now destruct (c_SignMSIImprint _ _ _ _).
  - rewrite sign_run; cbv zeta.
    destruct (c_DigestMsiTar _ _ _); [reflexivity|].
    now destruct (c_SignMSIImprint _ _ _ _).
  - intros ev Hin.
    apply sign_events in Hin as [->|[[-> _]|[-> _]]]; reflexivity.
Qed.

Lemma transform_events f opts w ev :
  ev ∈ events_of (transform f opts) w →
  ev = EvReadFile f ∨
  (ev = EvPrehash (opt_Hash opts) ∧ noExtended_of opts = false).
Proof.
  unfold events_of. rewrite transform_run.
  assert (H1 : ev ∈ [EvReadFile f] → ev = EvReadFile f ∨
            (ev = EvPrehash (opt_Hash opts) ∧ noExtended_of opts = false)).
  { intros Hin. apply elem_of_cons in Hin as [->|Hin]; [auto|].
    by apply elem_of_nil in Hin. }
  destruct (disk w !! f) as [c|]; simpl;
    [|rewrite drop_app_length; exact H1].
  destruct (c_ReadFile c) as [e|cdf]; simpl;
    [rewrite drop_app_length; exact H1|].
  destruct (noExtended_of opts); simpl;
    [rewrite drop_app_length; exact H1|].
  destruct (c_PrehashMSI cdf (opt_Hash opts)); simpl;
    rewrite drop_app_length; intros Hin;
    (apply elem_of_cons in Hin as [->|Hin]; [auto|]);
    (apply elem_of_cons in Hin as [->|Hin]; [auto|]);
    by apply elem_of_nil in Hin.
Qed.

(** X5: every call that transform and sign make with a digest algorithm is
    made with the one of the sign options. *)
Theorem one_digest_algorithm f r cert opts w w0 ev h :
  ev ∈ events_of (transform f opts) w ∨ ev ∈ events_of (sign r cert opts) w0 →
  event_hash ev = Some h →
  h = opt_Hash opts.
Proof.
  intros [Hin|Hin] Hh.
  - apply transform_events in Hin as [->|[-> _]]; simpl in Hh; congruence.
  - apply sign_events in Hin as [->|[[-> _]|[-> _]]]; simpl in Hh;
      congruence.
Qed.

(** X6: transform and sign read the flag the same way: for the same options,
    sign asks for the extended digest to be mixed into the digest it signs
    exactly when a transform that succeeds has made the prehash call, that
    is, exactly when the Transformer holds an extended digest to embed. *)
Theorem transform_and_sign_agree_on_extended f r cert opts w w0 t w1 :
  transform f opts w = (inr t, w1) →
  ((∃ h, EvDigest h true ∈ events_of (sign r cert opts) w0) ↔
   (∃ h, EvPrehash h ∈ events_of (transform f opts) w)) ∧
  ((∃ h, EvDigest h false ∈ events_of (sign r cert opts) w0) →
   t_exsig t = []).
Proof.
  intros H.
  destruct (transform_success _ _ _ _ _ H) as (c & Hf & Hr & _ & Hx).
  pose proof (sign_digest_event r cert opts w0) as Hd.
  split; [split|].
  - intros [h Hin].
    apply sign_events in Hin as [Heq|[[Heq _]|[Heq _]]]; try discriminate Heq.
    inversion Heq as [[Hh Hn]]. symmetry in Hn. apply negb_true_iff in Hn.
    rewrite Hn in Hx. destruct Hx as [_ ->].
    rewrite (events_of_add_trace _ _ _ _ H).
    exists (opt_Hash opts). list_in.
  - intros [h Hin]. apply transform_events in Hin as [Heq|[_ Hn]];
      [discriminate Heq|].
    rewrite Hn in Hd. eauto.
  - intros [h Hin].
    apply sign_events in Hin as [Heq|[[Heq _]|[Heq _]]]; try discriminate Heq.
    inversion Heq as [[Hh Hn]]. symmetry in Hn. apply negb_false_iff in Hn.
    rewrite Hn in Hx. tauto.
Qed.

End More.

Section MoreApply.
Context {C : Collab}.

Implicit Types (w : World) (t : msiTransformer).

(** ** Apply *)

(** X7: Apply returns nil exactly when the blob can be read, the staged copy
    of the Transformer's file can be opened and parsed, the embedding and
    the closing of the structure succeed and the commit goes through; the
    destination then holds the bytes the closed structure was written out
    as, and nothing is left staged. *)
Theorem Apply_succeeds_iff t dest mimeType result w w' :
  Apply t dest mimeType result w = (inr tt, w') ↔
  ∃ blob c cdf cdf' c',
    ReadAll result = inr blob ∧
    WriteInPlace_fault (t_f t) dest = None ∧
    disk w !! t_f t = Some c ∧
    c_WriteFile c = inr cdf ∧
    c_InsertMSISignature cdf blob (t_exsig t) = inr cdf' ∧
    c_Close cdf' = inr c' ∧
    Commit_fault dest c' = None ∧
    w' = mkWorld (<[dest := c']> (disk w)) None
           (trace w ++ [EvWriteInPlace (t_f t) dest; EvWriteFile;
                        EvInsert blob (t_exsig t); EvCdfClose;
                        EvCommit dest; EvClose]).
Proof.
  rewrite Apply_run; cbv zeta. split.
  - destruct (ReadAll result) as [e|blob]; [discriminate|].
    destruct (WriteInPlace_fault (t_f t) dest) as [e|]; [discriminate|].
    destruct (disk w !! t_f t) as [c|]; [|discriminate].
    destruct (c_WriteFile c) as [e|cdf] eqn:Hw; [discriminate|].
    destruct (c_InsertMSISignature cdf blob (t_exsig t)) as [e|cdf'] eqn:Hi;
      [discriminate|].
    destruct (c_Close cdf') as [e|c'] eqn:Hc; [discriminate|].
    destruct (Commit_fault dest c') as [e|] eqn:Hm; [discriminate|].
    intros H. inversion H; subst. exists blob, c, cdf, cdf', c'.
    split_and!; auto.
  - intros (blob & c & cdf & cdf' & c' & -> & -> & -> & -> & -> & -> & ->
            & ->).
    reflexivity.
Qed.

(** X8: whatever Apply returns, every path other than the destination holds
    what it held before; so when the destination is not the Transformer's
    own file, that file is unchanged even by a successful Apply. *)
Theorem Apply_changes_only_dest t dest mimeType result w p :
  p ≠ dest →
  disk (snd (Apply t dest mimeType result w)) !! p = disk w !! p.
Proof.
  intros Hp. rewrite Apply_run; cbv zeta.
  destruct (ReadAll result) as [e|blob]; [reflexivity|].
  destruct (WriteInPlace_fault (t_f t) dest) as [e|]; [reflexivity|].
  destruct (disk w !! t_f t) as [c|]; [|reflexivity].
  destruct (c_WriteFile c) as [e|cdf]; [reflexivity|].
  destruct (c_InsertMSISignature cdf blob (t_exsig t)) as [e|cdf'];
    [reflexivity|].
  destruct (c_Close cdf') as [e|c']; [reflexivity|].
  destruct (Commit_fault dest c') as [e|]; simpl.
  - destruct (decide (t_f t = dest)); [|reflexivity].
    now rewrite lookup_insert_ne.
  - now rewrite lookup_insert_ne.
Qed.

(** X9: what Apply opened it closes: when the staged writer was opened, the
    last call Apply makes is the Close of the atomic file, on every path,
    and nothing is left staged; when it was not opened, Close is not
    called and the staging slot is as before. *)
Theorem Apply_closes_what_it_opened t dest mimeType result w :
  (EvWriteFile ∈ events_of (Apply t dest mimeType result) w →
   last (events_of (Apply t dest mimeType result) w) = Some EvClose ∧
   staged (snd (Apply t dest mimeType result w)) = None) ∧
  ((EvWriteFile ∉ events_of (Apply t dest mimeType result) w) →
   (EvClose ∉ events_of (Apply t dest mimeType result) w) ∧
   staged (snd (Apply t dest mimeType result w)) = staged w).
Proof.
  unfold events_of. rewrite Apply_run; cbv zeta.
  destruct (ReadAll result) as [e|blob].
  { rewrite drop_all. split; [list_notin|]. intros _.
    split; [list_notin | reflexivity]. }
  destruct (WriteInPlace_fault (t_f t) dest) as [e|].
  { simpl. rewrite drop_app_length. split; [list_notin|]. intros _.
    split; [list_notin | reflexivity]. }
  destruct (disk w !! t_f t) as [c|].
  2:{ simpl. rewrite drop_app_length. split; [list_notin|]. intros _.
      split; [list_notin | reflexivity]. }
  destruct (c_WriteFile c) as [e|cdf]; simpl.
  { rewrite drop_app_length.
    split; [intros _; split; reflexivity|].
    intros Hn. exfalso. apply Hn. list_in. }
  destruct (c_InsertMSISignature cdf blob (t_exsig t)) as [e|cdf']; simpl.
  { rewrite drop_app_length.
    split; [intros _; split; reflexivity|].
    intros Hn. exfalso. apply Hn. list_in. }
  destruct (c_Close cdf') as [e|c']; simpl.
  { rewrite drop_app_length.
    split; [intros _; split; reflexivity|].
    intros Hn. exfalso. apply Hn. list_in. }
  destruct (Commit_fault dest c') as [e|]; simpl;
    rewrite drop_app_length;
    (split; [intros _; split; reflexivity|]);
    intros Hn; exfalso; apply Hn; list_in.
Qed.

(** X10: Apply commits only a structure that has been written out: when the
    commit call is made, it is for the destination Apply was given, and
    the blob was read, the staged copy parsed, the signature embedded and
    the structure closed, all without error; Apply then returns nil
    exactly when the commit goes through. *)
Theorem Apply_commits_only_closed_structure t dest mimeType result w d :
  EvCommit d ∈ events_of (Apply t dest mimeType result) w →
  d = dest ∧
  ∃ blob c cdf cdf' c',
    ReadAll result = inr blob ∧
    disk w !! t_f t = Some c ∧
    c_WriteFile c = inr cdf ∧
    c_InsertMSISignature cdf blob (t_exsig t) = inr cdf' ∧
    c_Close cdf' = inr c' ∧
    (fst (Apply t dest mimeType result w) = inr tt ↔
     Commit_fault dest c' = None).
Proof.
  unfold events_of. rewrite Apply_run; cbv zeta.
  destruct (ReadAll result) as [e|blob].
  { rewrite drop_all. list_notin. }
  destruct (WriteInPlace_fault (t_f t) dest) as [e|];
    [simpl; rewrite drop_app_length; list_notin|].
  destruct (disk w !! t_f t) as [c|];
    [|simpl; rewrite drop_app_length; list_notin].
  destruct (c_WriteFile c) as [e|cdf] eqn:Hw;
    [simpl; rewrite drop_app_length; list_notin|].
  destruct (c_InsertMSISignature cdf blob (t_exsig t)) as [e|cdf'] eqn:Hi;
    [simpl; rewrite drop_app_length; list_notin|].
  destruct (c_Close cdf') as [e|c'] eqn:Hc;
    [simpl; rewrite drop_app_length; list_notin|].
  assert (Hd : ∀ l : list Event,
            (∀ ev, ev ∈ l → ∀ d', ev = EvCommit d' → d' = dest) →
            EvCommit d ∈ l → d = dest)
    by (intros l Hall Hin; eapply Hall; eauto).
  destruct (Commit_fault dest c') as [e|] eqn:Hm; simpl;
    rewrite drop_app_length; intros Hin.
  - split.
    + repeat (apply elem_of_cons in Hin as [Hin|Hin];
              [try discriminate Hin; now inversion Hin|]).
      by apply elem_of_nil in Hin.
    + exists blob, c, cdf, cdf', c'. split_and!; auto.
      simpl. rewrite Hm. split; intros Habs; discriminate Habs.
  - split.
    + repeat (apply elem_of_cons in Hin as [Hin|Hin];
              [try discriminate Hin; now inversion Hin|]).
      by apply elem_of_nil in Hin.
    + exists blob, c, cdf, cdf', c'. split_and!; auto.
      simpl. rewrite Hm. split; intros _; reflexivity.
Qed.

(** ** verify *)

(** X12: verify writes nothing and makes one call, VerifyMSI on the file with
    the caller's no-digests option; when it fails it returns no record and
    the error is the one VerifyMSI returned (or the read error of a handle
    with no file behind it). *)
Theorem verify_reads_only f (vopts : VerifyOpts) w :
  snd (verify f vopts w) = add_trace w [EvVerify f (NoDigests vopts)] ∧
  ∀ e, fst (verify f vopts w) = inl e ↔
       (disk w !! f = None ∧ e = "read: bad file descriptor") ∨
       (∃ c, disk w !! f = Some c ∧ c_VerifyMSI c (NoDigests vopts) = inl e).
Proof.
  rewrite verify_run.
  destruct (disk w !! f) as [c|].
  - destruct (c_VerifyMSI c (NoDigests vopts)) as [e0|sig] eqn:Hv; simpl.
    + split; [reflexivity|]. intros e. split.
      * intros [= ->]. right. eauto.
      * intros [[Hn _]|(c0 & [= <-] & He)]; [discriminate|]. congruence.
    + split; [reflexivity|]. intros e. split; [discriminate|].
      intros [[Hn _]|(c0 & [= <-] & He)]; [discriminate|]. congruence.
  - simpl. split; [reflexivity|]. intros e. split.
    + intros [= <-]. left. auto.
    + intros [[_ ->]|(c0 & Hn & _)]; [reflexivity | discriminate].
Qed.

End MoreApply.

(** ** On concrete inputs *)
Section MoreConcrete.
Import Ref.

Lemma GetReader_clean_stream_witness :
  c_MsiToTar (t_cdf t0) = ([x01; x02], None) ∧
  ∃ r, GetReader t0 world0 =
         (inr (r, -1), add_trace world0 [EvSpawnMsiToTar]) ∧
       ReadAll r = inr [x01; x02] ∧
       Read_n 2 r = ([x01; x02], RdEOF).
Proof.
  assert (H : c_MsiToTar (t_cdf t0) = ([x01; x02], None)) by reflexivity.
  split; [exact H|].
  exact (GetReader_clean_stream t0 world0 [x01; x02] H).
Defined.

Lemma one_digest_algorithm_witness :
  (EvPrehash SHA256 ∈ events_of (transform "a.msi" opts_default) world0 ∨
   EvPrehash SHA256
     ∈ events_of (sign (NewReader []) cert0 opts_default) world0) ∧
  event_hash (EvPrehash SHA256) = Some SHA256 ∧
  SHA256 = opt_Hash opts_default.
Proof.
  assert (H1 : EvPrehash SHA256
                 ∈ events_of (transform "a.msi" opts_default) world0 ∨
               EvPrehash SHA256
                 ∈ events_of (sign (NewReader []) cert0 opts_default) world0).
  { left. vm_compute. list_in. }
  assert (H2 : event_hash (EvPrehash SHA256) = Some SHA256) by reflexivity.
  split; [exact H1|]. split; [exact H2|].
  exact (one_digest_algorithm "a.msi" (NewReader []) cert0 opts_default
           world0 world0 (EvPrehash SHA256) SHA256 H1 H2).
Defined.

Lemma transform_and_sign_agree_on_extended_witness :
  transform "a.msi" opts_noext world0 =
    (inr (mkTransformer "a.msi" msi0 []),
     add_trace world0 [EvReadFile "a.msi"]) ∧
  ((∃ h, EvDigest h true
           ∈ events_of (sign (NewReader []) cert0 opts_noext) world0) ↔
   (∃ h, EvPrehash h ∈ events_of (transform "a.msi" opts_noext) world0)).
Proof.
  assert (H : transform "a.msi" opts_noext world0 =
            (inr (mkTransformer "a.msi" msi0 []),
             add_trace world0 [EvReadFile "a.msi"]))
    by reflexivity.
  split; [exact H|].
  exact (proj1 (transform_and_sign_agree_on_extended "a.msi" (NewReader [])
                  cert0 opts_noext world0 world0 _ _ H)).
Defined.

Lemma Apply_changes_only_dest_witness :
  "a.msi" ≠ "b.msi" ∧
  disk (snd (Apply t0 "b.msi" "" (NewReader blob1) world0)) !! "a.msi" =
    disk world0 !! "a.msi".
Proof.
  assert (H : "a.msi" ≠ "b.msi") by discriminate.
  split; [exact H|].
  exact (Apply_changes_only_dest t0 "b.msi" "" (NewReader blob1) world0
           "a.msi" H).
Defined.

Lemma Apply_commits_only_closed_structure_witness :
  EvCommit "a.msi" ∈ events_of (Apply t0 "a.msi" "" (NewReader blob1)) world0 ∧
  ∃ blob c cdf cdf' c',
    ReadAll (NewReader blob1) = inr blob ∧
    disk world0 !! t_f t0 = Some c ∧
    c_WriteFile c = inr cdf ∧
    c_InsertMSISignature cdf blob (t_exsig t0) = inr cdf' ∧
    c_Close cdf' = inr c' ∧
    (fst (Apply t0 "a.msi" "" (NewReader blob1) world0) = inr tt ↔
     Commit_fault "a.msi" c' = None).
Proof.
  assert (H : EvCommit "a.msi"
                ∈ events_of (Apply t0 "a.msi" "" (NewReader blob1)) world0).
  { vm_compute. list_in. }
  split; [exact H|].
  exact (proj2 (Apply_commits_only_closed_structure t0 "a.msi" ""
                  (NewReader blob1) world0 "a.msi" H)).
Defined.

End MoreConcrete.
